(** * The Zipkin span exporter for the browser (zipkin.ts)

    A shallow embedding of [ZipkinExporter]: its constructor, [export],
    [shutdown], [_toZipkinSpan], [_sendSpans] and [_send].

    The exporter works on JavaScript objects that it shares with its caller
    (the span array and the spans in it) and with axios (the batch it posts),
    it calls a logger and a result callback, and it leaves a promise behind
    that settles after [export] has returned.  The model therefore threads a
    world through every method: a heap of objects, the trace of the calls
    made so far, and the requests that are still in flight. *)

From stdpp Require Import base option list gmap strings.

Open Scope string_scope.
Open Scope list_scope.

(** ** Imported names *)

(** [types.Logger]: the no-op logger of @opentelemetry/core, or a logger
    object handed in by the host application. *)
Inductive Logger :=
| NoopLogger
| HostLogger (id : nat).

(** Modelled from the spec: the enumeration [ExportResult] of
    @opentelemetry/base is not among the sources; the spec names a SUCCESS
    and a FAILURE indicator.  The exporter itself only ever mentions
    [ExportResult.SUCCESS]. *)
Inductive ExportResult :=
| SUCCESS
| FAILURE.

Module zipkinTypes.

(** Modelled from the spec: the declaration of [ExporterConfig] in ./types
    is not among the sources; these are the options the spec lists for
    the configuration surface, the optional ones as [option]. *)
Record ExporterConfig := {
  url : option string;
  serviceName : string;
  statusCodeTagName : option string;
  statusDescriptionTagName : option string;
  forceFlush : option bool;
  logger : option Logger;
}.

End zipkinTypes.

(** What zipkin.ts imports from ./transform, ./types and
    @opentelemetry/tracing and that is not among the sources: the two span
    types, the transformer and the two default tag keys.

    Modelled from the spec: the transformer is "a pure function: internal
    span to wire-format span record, no I/O, no state", to which the internal
    span is read-only; it is a function of the span and of the three strings
    it is called with. *)
Class Imports := {
  ReadableSpan : Type;
  Span : Type;
  toZipkinSpan : ReadableSpan → string → string → string → Span;
  statusCodeTagName : string;
  statusDescriptionTagName : string;
}.

(** ** JavaScript's [a || b] at the three types the constructor uses it at

    [a || b] is [a] when [a] is truthy and [b] otherwise.  [undefined] is
    falsy; the only falsy string is the empty one; the only falsy boolean is
    [false]; an object is always truthy. *)

Definition or_string (a : option string) (b : string) : string :=
  match a with
  | Some s => if decide (s = "") then b else s
  | None => b
  end.

Definition or_bool (a : option bool) (b : bool) : bool :=
  match a with
  | Some true => true
  | Some false => b
  | None => b
  end.

Definition or_object {A : Type} (a : option A) (b : A) : A :=
  match a with
  | Some x => x
  | None => b
  end.

(** ** The exporter object *)

Record ZipkinExporter := {
  _forceFlush : bool;
  _logger : Logger;
  _serviceName : string;
  _statusCodeTagName : string;
  _statusDescriptionTagName : string;
  _urlStr : string;
}.

Definition DEFAULT_URL : string := "http://localhost:9411/api/v2/spans".

Definition constructor `{Imports} (config : zipkinTypes.ExporterConfig)
  : ZipkinExporter :=
  {| _urlStr := or_string (zipkinTypes.url config) DEFAULT_URL;
     _forceFlush := or_bool (zipkinTypes.forceFlush config) true;
     _logger := or_object (zipkinTypes.logger config) NoopLogger;
     _serviceName := zipkinTypes.serviceName config;
     _statusCodeTagName :=
       or_string (zipkinTypes.statusCodeTagName config) statusCodeTagName;
     _statusDescriptionTagName :=
       or_string (zipkinTypes.statusDescriptionTagName config)
                 statusDescriptionTagName |}.

(** Transforms an OpenTelemetry span to a Zipkin span. *)
Definition _toZipkinSpan `{Imports} (this : ZipkinExporter) (span : ReadableSpan)
  : Span :=
  toZipkinSpan span (_serviceName this) (_statusCodeTagName this)
               (_statusDescriptionTagName this).

(** ** The world *)

Abbreviation loc := positive (only parsing).

(** The caller's result callback, known by its identity; the model records
    each invocation and does not look into its body. *)
Definition Callback := nat.

(** The value a rejected request carries. *)
Definition Err := string.

(** The objects of the heap: a span, a [ReadableSpan[]] (an array of
    references to spans) and a [zipkinTypes.Span[]]. *)
Inductive Obj `{Imports} :=
| ObjSpan (span : ReadableSpan)
| ObjSpans (elems : list loc)
| ObjBatch (elems : list Span).

(** What the exporter does to its surroundings, in the order it does it.
    [Call_sendSpans] marks an entry into [_sendSpans], so that flushes can be
    counted; the others are the calls [_logger.debug], [_logger.error],
    [axios.post] and the invocation of the caller's callback. *)
Inductive Event :=
| Call_sendSpans (spans : loc) (done : option Callback)
| LogDebug (lg : Logger) (msg : string)
| LogError (lg : Logger) (msg : string) (e : Err)
| AxiosPost (url : string) (data : loc)
| Invoke (cb : Callback) (result : ExportResult).

(** A handler waiting on the promise of a request in flight.  The only one
    in zipkin.ts is the arrow function given to [.catch] in [_send], which
    closes over [this]. *)
Inductive Reaction :=
| CatchOfSend (this : ZipkinExporter).

Record World `{Imports} := {
  heap : gmap loc Obj;
  trace : list Event;
  pending : list Reaction;
}.

(** How a request in flight ends.  axios rejects the promise on a network
    error and on a response whose status is not a success. *)
Inductive Outcome :=
| Fulfilled
| Rejected (e : Err).

(** ** A state monad with failure

    [None] is a [TypeError]: a reference that does not hold what its
    TypeScript type says. *)

Definition M `{Imports} (A : Type) : Type := World → option (A * World).

#[global] Instance M_ret `{Imports} : MRet M :=
  λ A x w, Some (x, w).

#[global] Instance M_bind `{Imports} : MBind M :=
  λ A B f m w,
    match m w with
    | Some (x, w') => f x w'
    | None => None
    end.

Definition throw `{Imports} {A : Type} : M A :=
  λ _, None.

Definition get_obj `{Imports} (l : loc) : M Obj :=
  λ w, match heap w !! l with
       | Some o => Some (o, w)
       | None => None
       end.

(** A new object gets a location that holds nothing yet. *)
Definition alloc `{Imports} (o : Obj) : M loc :=
  λ w, let l := fresh (dom (heap w)) in
       Some (l, {| heap := <[l := o]> (heap w);
                   trace := trace w;
                   pending := pending w |}).

Definition emit `{Imports} (ev : Event) : M unit :=
  λ w, Some (tt, {| heap := heap w;
                    trace := trace w ++ [ev];
                    pending := pending w |}).

Definition defer `{Imports} (r : Reaction) : M unit :=
  λ w, Some (tt, {| heap := heap w;
                    trace := trace w;
                    pending := pending w ++ [r] |}).

Definition read_span `{Imports} (l : loc) : M ReadableSpan :=
  o ← get_obj l;
  match o with
  | ObjSpan s => mret s
  | _ => throw
  end.

Fixpoint read_each `{Imports} (ls : list loc) : M (list ReadableSpan) :=
  match ls with
  | [] => mret []
  | l :: ls' => s ← read_span l; ss ← read_each ls'; mret (s :: ss)
  end.

Definition read_spans `{Imports} (a : loc) : M (list ReadableSpan) :=
  o ← get_obj a;
  match o with
  | ObjSpans ls => read_each ls
  | _ => throw
  end.

Definition read_batch `{Imports} (b : loc) : M (list Span) :=
  o ← get_obj b;
  match o with
  | ObjBatch zs => mret zs
  | _ => throw
  end.

(** ** The methods *)

(** Send spans to the remote Zipkin service.  The method is [async] and has
    no [await]: its body runs to its end before the call returns.  The
    promise of [axios.post] is neither awaited nor returned; its [.catch]
    handler stays behind in [pending]. *)
Definition _send `{Imports} (this : ZipkinExporter) (zipkinSpans : loc)
    (done : ExportResult → M unit) : M unit :=
  zs ← read_batch zipkinSpans;
  if decide (length zs = 0) then
    emit (LogDebug (_logger this) "Zipkin send with empty spans");;
    done SUCCESS
  else
    emit (AxiosPost (_urlStr this) zipkinSpans);;
    defer (CatchOfSend this).

(** Transform spans and sends to Zipkin service.  [spans.map] reads the
    elements in order and builds a new array. *)
Definition _sendSpans `{Imports} (this : ZipkinExporter) (spans : loc)
    (done : option Callback) : M unit :=
  emit (Call_sendSpans spans done);;
  ss ← read_spans spans;
  zipkinSpans ← alloc (ObjBatch (map (_toZipkinSpan this) ss));
  _send this zipkinSpans
        (λ result,
           match done with
           | Some cb => emit (Invoke cb result)
           | None => mret tt
           end).

(** Export spans. *)
Definition export `{Imports} (this : ZipkinExporter) (spans : loc)
    (resultCallback : Callback) : M unit :=
  _sendSpans this spans (Some resultCallback).

(** Shutdown exporter: an optimistic flush of the array literal [[]]. *)
Definition shutdown `{Imports} (this : ZipkinExporter) : M unit :=
  if _forceFlush this then
    empty ← alloc (ObjSpans []);
    _sendSpans this empty None
  else
    mret tt.

(** ** After the call: a request in flight settles *)

Definition run_reaction `{Imports} (r : Reaction) (e : Err) : M unit :=
  match r with
  | CatchOfSend this =>
      emit (LogError (_logger this)
                     ("axios.post threw error " +:+ _urlStr this) e)
  end.

(** The [i]-th request in flight ends with outcome [o]; there is no such
    step when fewer requests are in flight. *)
Definition settle `{Imports} (i : nat) (o : Outcome) : M unit :=
  λ w, match pending w !! i with
       | None => None
       | Some r =>
           let w' := {| heap := heap w;
                        trace := trace w;
                        pending := delete i (pending w) |} in
           match o with
           | Fulfilled => Some (tt, w')
           | Rejected e => run_reaction r e w'
           end
       end.

(** Any later activity of exporters in the same world. *)
Inductive Op :=
| OpExport (this : ZipkinExporter) (spans : loc) (cb : Callback)
| OpShutdown (this : ZipkinExporter)
| OpSettle (i : nat) (o : Outcome).

Definition step `{Imports} (op : Op) : M unit :=
  match op with
  | OpExport this spans cb => export this spans cb
  | OpShutdown this => shutdown this
  | OpSettle i o => settle i o
  end.

Fixpoint run `{Imports} (ops : list Op) : M unit :=
  match ops with
  | [] => mret tt
  | op :: ops' => step op;; run ops'
  end.

(** ** Reading a world *)

(** The spans an array of the heap refers to, in order. *)
Fixpoint spans_of `{Imports} (h : gmap loc Obj) (ls : list loc)
  : option (list ReadableSpan) :=
  match ls with
  | [] => Some []
  | l :: ls' =>
      match h !! l with
      | Some (ObjSpan s) =>
          match spans_of h ls' with
          | Some ss => Some (s :: ss)
          | None => None
          end
      | _ => None
      end
  end.

Definition spans_at `{Imports} (h : gmap loc Obj) (a : loc)
  : option (list ReadableSpan) :=
  match h !! a with
  | Some (ObjSpans ls) => spans_of h ls
  | _ => None
  end.

(** Every object of [h] is still there in [h'], unchanged. *)
Definition preserved `{Imports} (h h' : gmap loc Obj) : Prop :=
  ∀ l ob, h !! l = Some ob → h' !! l = Some ob.

(** The Transport submissions of a trace. *)
Definition posts (tr : list Event) : list (string * loc) :=
  omap (λ ev, match ev with AxiosPost u b => Some (u, b) | _ => None end) tr.

(** The results a callback was invoked with. *)
Definition invocations (cb : Callback) (tr : list Event) : list ExportResult :=
  omap (λ ev, match ev with
              | Invoke cb' r => if decide (cb' = cb) then Some r else None
              | _ => None
              end) tr.

(** The entries into [_sendSpans]. *)
Definition flushes (tr : list Event) : list (loc * option Callback) :=
  omap (λ ev, match ev with Call_sendSpans a d => Some (a, d) | _ => None end)
       tr.

(** The calls of [_logger.error]. *)
Definition errors (tr : list Event) : list (Logger * string * Err) :=
  omap (λ ev, match ev with LogError lg m e => Some (lg, m, e) | _ => None end)
       tr.

(** ** Reading a sequence of steps *)

(** The steps that settle a request. *)
Fixpoint settles (ops : list Op) : nat :=
  match ops with
  | [] => 0
  | OpSettle _ _ :: ops' => S (settles ops')
  | _ :: ops' => settles ops'
  end.

(** The steps that settle a request as rejected. *)
Fixpoint rejections (ops : list Op) : nat :=
  match ops with
  | [] => 0
  | OpSettle _ (Rejected _) :: ops' => S (rejections ops')
  | _ :: ops' => rejections ops'
  end.

(** The exports of a sequence that are given the callback [cb] and an array
    that is empty in the heap [h]. *)
Fixpoint empty_exports `{Imports} (h : gmap loc Obj) (cb : Callback)
    (ops : list Op) : nat :=
  match ops with
  | [] => 0
  | OpExport _ a cb' :: ops' =>
      (if decide (cb' = cb)
       then match spans_at h a with Some [] => 1 | _ => 0 end
       else 0)
      + empty_exports h cb ops'
  | _ :: ops' => empty_exports h cb ops'
  end.

(** Every submission of the trace carries a batch with a span in it. *)
Definition batches_nonempty `{Imports} (w : World) : Prop :=
  ∀ u b, (u, b) ∈ posts (trace w) →
         ∃ zs, heap w !! b = Some (ObjBatch zs) ∧ zs ≠ [].

(** Every handler in flight waits for a submission of the trace, made to the
    URL of the exporter the handler closes over. *)
Definition in_flight_posted `{Imports} (w : World) : Prop :=
  ∀ this, CatchOfSend this ∈ pending w →
          _urlStr this ∈ (posts (trace w)).*1.

(** ** A transformer to run the exporter with *)

Module Transform.

(** Modelled from the spec: ./transform, ./types and the [ReadableSpan] of
    @opentelemetry/tracing are not among the sources.  The two records
    follow the spec's data model, with timestamps in whole microseconds;
    the transformer follows its component design: identifiers kept as they
    are, the duration the difference of the two times and clamped at zero,
    INTERNAL mapped to an absent kind, the attributes as tags followed by
    the status code (by its name) and by the description when there is a
    non-empty one, one annotation per event carrying the event's name. *)

Inductive SpanKind := INTERNAL | SERVER | CLIENT | PRODUCER | CONSUMER.

Inductive StatusCode := OK | ERROR | UNSET.

Record Status := {
  code : StatusCode;
  description : option string;
}.

Record TimedEvent := {
  event_name : string;
  event_time : Z;
  event_attributes : list (string * string);
}.

Record ReadableSpan := {
  traceId : string;
  spanId : string;
  parentSpanId : option string;
  name : string;
  kind : SpanKind;
  startTime : Z;
  endTime : Z;
  attributes : list (string * string);
  events : list TimedEvent;
  status : Status;
}.

Record Endpoint := {
  serviceName : string;
}.

Record Annotation := {
  annotation_timestamp : Z;
  annotation_value : string;
}.

Record Span := {
  wire_traceId : string;
  wire_name : string;
  wire_id : string;
  wire_parentId : option string;
  wire_kind : option SpanKind;
  wire_timestamp : Z;
  wire_duration : Z;
  wire_localEndpoint : Endpoint;
  wire_tags : list (string * string);
  wire_annotations : list Annotation;
}.

Definition toZipkinKind (k : SpanKind) : option SpanKind :=
  match k with
  | INTERNAL => None
  | _ => Some k
  end.

Definition statusCodeName (c : StatusCode) : string :=
  match c with
  | OK => "OK"
  | ERROR => "ERROR"
  | UNSET => "UNSET"
  end.

Definition toZipkinTags (attrs : list (string * string)) (st : Status)
    (statusCodeTagName statusDescriptionTagName : string)
  : list (string * string) :=
  attrs ++ [(statusCodeTagName, statusCodeName (code st))]
        ++ match description st with
           | Some d =>
               if decide (d = "") then []
               else [(statusDescriptionTagName, d)]
           | None => []
           end.

Definition toZipkinAnnotations (evs : list TimedEvent) : list Annotation :=
  map (λ ev, {| annotation_timestamp := event_time ev;
                annotation_value := event_name ev |}) evs.

Definition toZipkinSpan (span : ReadableSpan) (serviceName : string)
    (statusCodeTagName statusDescriptionTagName : string) : Span :=
  {| wire_traceId := traceId span;
     wire_name := name span;
     wire_id := spanId span;
     wire_parentId := parentSpanId span;
     wire_kind := toZipkinKind (kind span);
     wire_timestamp := startTime span;
     wire_duration := Z.max 0 (endTime span - startTime span);
     wire_localEndpoint := {| serviceName := serviceName |};
     wire_tags := toZipkinTags (attributes span) (status span)
                               statusCodeTagName statusDescriptionTagName;
     wire_annotations := toZipkinAnnotations (events span) |}.

End Transform.

(** Modelled from the spec: the default tag keys of ./transform are "fixed
    tag keys" that the spec does not spell out; two strings stand for them. *)
#[global] Instance spec_imports : Imports := {|
  ReadableSpan := Transform.ReadableSpan;
  Span := Transform.Span;
  toZipkinSpan := Transform.toZipkinSpan;
  statusCodeTagName := "ot.status_code";
  statusDescriptionTagName := "ot.status_description";
|}.

(** ** Sample inputs *)

Definition span_main : ReadableSpan :=
  {| Transform.traceId := "abc123";
     Transform.spanId := "aaa111";
     Transform.parentSpanId := None;
     Transform.name := "main";
     Transform.kind := Transform.INTERNAL;
     Transform.startTime := 1000000;
     Transform.endTime := 1009000;
     Transform.attributes := [];
     Transform.events := [];
     Transform.status :=
       {| Transform.code := Transform.OK; Transform.description := None |} |}.

Definition span_doWork : ReadableSpan :=
  {| Transform.traceId := "abc123";
     Transform.spanId := "def456";
     Transform.parentSpanId := Some "aaa111";
     Transform.name := "doWork";
     Transform.kind := Transform.INTERNAL;
     Transform.startTime := 1000000;
     Transform.endTime := 1005000;
     Transform.attributes := [("key", "value")];
     Transform.events :=
       [{| Transform.event_name := "invoking doWork";
           Transform.event_time := 1002000;
           Transform.event_attributes := [] |}];
     Transform.status :=
       {| Transform.code := Transform.OK; Transform.description := None |} |}.

(** The configuration of the usage example shipped with the package. *)
Definition options : zipkinTypes.ExporterConfig :=
  {| zipkinTypes.url :=
       Some "http://localhost:8888/http://host.docker.internal:9411/api/v2/spans";
     zipkinTypes.serviceName := "my-service";
     zipkinTypes.statusCodeTagName := None;
     zipkinTypes.statusDescriptionTagName := None;
     zipkinTypes.forceFlush := None;
     zipkinTypes.logger := None |}.

Definition exporter : ZipkinExporter := constructor options.

Definition options_no_flush : zipkinTypes.ExporterConfig :=
  {| zipkinTypes.url := None;
     zipkinTypes.serviceName := "my-service";
     zipkinTypes.statusCodeTagName := None;
     zipkinTypes.statusDescriptionTagName := None;
     zipkinTypes.forceFlush := Some false;
     zipkinTypes.logger := Some (HostLogger 0) |}.

(** A world in which the caller holds the array [[span_main, span_doWork]]
    at location 3, the array [[span_doWork]] at 4 and an empty array at 5. *)
Definition world0 : World :=
  {| heap := <[5%positive := ObjSpans []]>
             (<[4%positive := ObjSpans [2%positive]]>
             (<[3%positive := ObjSpans [1%positive; 2%positive]]>
             (<[2%positive := ObjSpan span_doWork]>
             (<[1%positive := ObjSpan span_main]> ∅))));
     trace := [];
     pending := [] |}.

(** A day in that world: the exporter of the usage example exports the two
    spans, a second exporter exports one of them, the first request is
    rejected, an empty array is exported, the exporter is shut down, and the
    request that is left is fulfilled. *)
Definition day : list Op :=
  [OpExport exporter 3 7;
   OpExport (constructor options_no_flush) 4 8;
   OpSettle 0 (Rejected "Network Error");
   OpExport exporter 5 7;
   OpShutdown exporter;
   OpSettle 0 Fulfilled].

(** The world at the end of that day. *)
Definition day_end : World :=
  Eval vm_compute in
    match run day world0 with
    | Some (_, w) => w
    | None => world0
    end.

(** * Properties *)

(** Runs the monad's plumbing: binds, returns and the primitive steps. *)
Ltac run_M :=
  repeat (progress (unfold mbind, M_bind, mret, M_ret, throw, get_obj,
                      read_span, read_batch, emit, defer, alloc in *;
                    simpl in *)).

Section Exporter.

Context `{Imports}.

Implicit Types (this : ZipkinExporter) (w : World) (a b l : loc).
Implicit Types (ss : list ReadableSpan) (cb : Callback) (o : Outcome).

(** ** Reading the heap *)

Lemma read_each_spans_of ls ss w :
  spans_of (heap w) ls = Some ss → read_each ls w = Some (ss, w).
Proof.
  revert ss. induction ls as [|l ls IH]; intros ss Hs; simpl in *.
  - by inversion Hs.
  - run_M.
    destruct (heap w !! l) as [[s| |]|]; try discriminate.
    destruct (spans_of (heap w) ls) as [ss'|]; try discriminate.
    inversion Hs; subst. by rewrite (IH ss' eq_refl).
Qed.

Lemma read_spans_spans_at a ss w :
  spans_at (heap w) a = Some ss → read_spans a w = Some (ss, w).
Proof.
  unfold spans_at, read_spans. run_M.
  destruct (heap w !! a) as [[| ls |]|]; try discriminate.
  apply read_each_spans_of.
Qed.

Lemma fresh_loc_free (h : gmap loc Obj) : h !! fresh (dom h) = None.
Proof. apply not_elem_of_dom, is_fresh. Qed.

(** ** What one call of [_sendSpans] does *)

(** On an empty array: a debug notice, then the callback if there is
    one. *)
Lemma _sendSpans_empty this a done w :
  spans_at (heap w) a = Some [] →
  _sendSpans this a done w =
    Some (tt,
          {| heap := <[fresh (dom (heap w)) := ObjBatch []]> (heap w);
             trace := trace w ++
               [Call_sendSpans a done;
                LogDebug (_logger this) "Zipkin send with empty spans"] ++
               match done with
               | Some cb => [Invoke cb SUCCESS]
               | None => []
               end;
             pending := pending w |}).
Proof.
  intros Hs. unfold _sendSpans. run_M.
  rewrite (read_spans_spans_at a []) by done.
  unfold _send. run_M. rewrite lookup_insert_eq. run_M.
  destruct done as [cb|]; run_M; by rewrite <- !(assoc_L (++)).
Qed.

(** On a non-empty array: one [axios.post] of the new batch, and the
    [.catch] handler left behind. *)
Lemma _sendSpans_nonempty this a done ss w :
  spans_at (heap w) a = Some ss →
  ss ≠ [] →
  _sendSpans this a done w =
    Some (tt,
          {| heap := <[fresh (dom (heap w)) :=
                         ObjBatch (map (_toZipkinSpan this) ss)]> (heap w);
             trace := trace w ++
               [Call_sendSpans a done;
                AxiosPost (_urlStr this) (fresh (dom (heap w)))];
             pending := pending w ++ [CatchOfSend this] |}).
Proof.
  intros Hs Hne. unfold _sendSpans. run_M.
  rewrite (read_spans_spans_at a ss) by done.
  unfold _send. run_M. rewrite lookup_insert_eq. run_M.
  destruct ss as [|s ss]; [done|]. run_M.
  by rewrite <- !(assoc_L (++)).
Qed.

(** ** The heap only grows *)

Lemma preserved_refl (h : gmap loc Obj) : preserved h h.
Proof. by intros l ob. Qed.

Lemma preserved_trans (h1 h2 h3 : gmap loc Obj) :
  preserved h1 h2 → preserved h2 h3 → preserved h1 h3.
Proof. intros H12 H23 l ob Hl. by apply H23, H12. Qed.

Lemma preserved_alloc (h : gmap loc Obj) (ob : Obj) :
  preserved h (<[fresh (dom h) := ob]> h).
Proof.
  intros l ob' Hl. rewrite lookup_insert_ne; [done|].
  intros <-. rewrite fresh_loc_free in Hl. discriminate.
Qed.

Lemma spans_of_preserved (h h' : gmap loc Obj) ls ss :
  preserved h h' → spans_of h ls = Some ss → spans_of h' ls = Some ss.
Proof.
  intros Hp. revert ss. induction ls as [|l ls IH]; intros ss; simpl; [done|].
  destruct (h !! l) as [[s| |]|] eqn:Hl; try discriminate.
  rewrite (Hp _ _ Hl).
  destruct (spans_of h ls) as [ss'|]; try discriminate.
  intros Hs. by rewrite (IH ss' eq_refl).
Qed.

Lemma spans_at_preserved (h h' : gmap loc Obj) a ss :
  preserved h h' → spans_at h a = Some ss → spans_at h' a = Some ss.
Proof.
  intros Hp. unfold spans_at.
  destruct (h !! a) as [[| ls |]|] eqn:Ha; try discriminate.
  rewrite (Hp _ _ Ha). by apply spans_of_preserved.
Qed.

Lemma read_each_inv ls ss w w' :
  read_each ls w = Some (ss, w') → spans_of (heap w) ls = Some ss ∧ w' = w.
Proof.
  revert ss. induction ls as [|l ls IH]; intros ss; simpl.
  - by intros [= <- <-].
  - run_M.
    destruct (heap w !! l) as [[s| |]|]; try discriminate.
    destruct (read_each ls w) as [[ss' w'']|] eqn:Hr; [|discriminate].
    intros [= <- <-]. destruct (IH ss' eq_refl) as [-> ->]. done.
Qed.

Lemma read_spans_inv a ss w w' :
  read_spans a w = Some (ss, w') → spans_at (heap w) a = Some ss ∧ w' = w.
Proof.
  unfold read_spans, spans_at. run_M.
  destruct (heap w !! a) as [[| ls |]|]; try discriminate.
  apply read_each_inv.
Qed.

(** A call of [_sendSpans] that returns has read an array of spans. *)
Lemma _sendSpans_inv this a done w w' :
  _sendSpans this a done w = Some (tt, w') →
  ∃ ss, spans_at (heap w) a = Some ss.
Proof.
  unfold _sendSpans. run_M.
  match goal with |- context [read_spans a ?w0] =>
    destruct (read_spans a w0) as [[ss w'']|] eqn:Hr; [|discriminate]
  end.
  apply read_spans_inv in Hr as [Hs _]. eauto.
Qed.

(** The heap after a call of [_sendSpans]: the old one and the batch. *)
Lemma _sendSpans_heap this a done ss w w' :
  spans_at (heap w) a = Some ss →
  _sendSpans this a done w = Some (tt, w') →
  heap w' = <[fresh (dom (heap w)) :=
                ObjBatch (map (_toZipkinSpan this) ss)]> (heap w).
Proof.
  intros Hs. destruct ss as [|s ss].
  - rewrite _sendSpans_empty by done. by intros [= <-].
  - rewrite (_sendSpans_nonempty _ _ _ (s :: ss)) by done. by intros [= <-].
Qed.

(** On an array of spans, [_sendSpans] returns. *)
Lemma _sendSpans_returns this a done ss w :
  spans_at (heap w) a = Some ss →
  ∃ w1,
    _sendSpans this a done w = Some (tt, w1)
    ∧ heap w1 = <[fresh (dom (heap w)) :=
                    ObjBatch (map (_toZipkinSpan this) ss)]> (heap w).
Proof.
  intros Hs.
  assert (∃ w1, _sendSpans this a done w = Some (tt, w1)) as [w1 Hr].
  { destruct ss as [|s ss].
    - rewrite _sendSpans_empty by done. eauto.
    - rewrite (_sendSpans_nonempty _ _ _ (s :: ss)) by done. eauto. }
  exists w1. split; [done|]. by apply (_sendSpans_heap this a done ss w w1).
Qed.

Lemma _sendSpans_preserved this a done w w' :
  _sendSpans this a done w = Some (tt, w') → preserved (heap w) (heap w').
Proof.
  intros Hr. destruct (_sendSpans_inv _ _ _ _ _ Hr) as [ss Hs].
  rewrite (_sendSpans_heap _ _ _ _ _ _ Hs Hr). apply preserved_alloc.
Qed.

Lemma shutdown_preserved this w w' :
  shutdown this w = Some (tt, w') → preserved (heap w) (heap w').
Proof.
  unfold shutdown. destruct (_forceFlush this); run_M.
  - intros Hr. apply _sendSpans_preserved in Hr. simpl in Hr.
    eapply preserved_trans; [apply preserved_alloc | exact Hr].
  - intros [= <-]. apply preserved_refl.
Qed.

Lemma settle_heap i o w w' :
  settle i o w = Some (tt, w') → heap w' = heap w.
Proof.
  unfold settle. destruct (pending w !! i) as [[this]|]; [|discriminate].
  destruct o; run_M; by intros [= <-].
Qed.

Lemma step_preserved op w w' :
  step op w = Some (tt, w') → preserved (heap w) (heap w').
Proof.
  destruct op as [this a cb | this | i o]; simpl.
  - apply _sendSpans_preserved.
  - apply shutdown_preserved.
  - intros Hr. rewrite (settle_heap _ _ _ _ Hr). apply preserved_refl.
Qed.

Lemma run_preserved ops w w' :
  run ops w = Some (tt, w') → preserved (heap w) (heap w').
Proof.
  revert w. induction ops as [|op ops IH]; intros w; simpl; run_M.
  - intros [= <-]. apply preserved_refl.
  - destruct (step op w) as [[[] w1]|] eqn:Hs; [|discriminate].
    intros Hr. eapply preserved_trans; [by eapply step_preserved | by apply IH].
Qed.

(** ** Lists *)

Lemma lookup_map {A B : Type} (f : A → B) (xs : list A) (i : nat) (x : A) :
  xs !! i = Some x → map f xs !! i = Some (f x).
Proof.
  revert i. induction xs as [|y xs IH]; intros [|i]; simpl; try done.
  - by intros [= ->].
  - apply IH.
Qed.

Lemma posts_app tr tr' : posts (tr ++ tr') = posts tr ++ posts tr'.
Proof. apply omap_app. Qed.

Lemma invocations_app cb tr tr' :
  invocations cb (tr ++ tr') = invocations cb tr ++ invocations cb tr'.
Proof. apply omap_app. Qed.

Lemma flushes_app tr tr' : flushes (tr ++ tr') = flushes tr ++ flushes tr'.
Proof. apply omap_app. Qed.

Lemma errors_app tr tr' : errors (tr ++ tr') = errors tr ++ errors tr'.
Proof. apply omap_app. Qed.

(** The request a call has just left in flight settles. *)
Lemma settle_last this o w (tr : list Event) (h : gmap loc Obj) :
  settle (length (pending w)) o
         {| heap := h; trace := tr; pending := pending w ++ [CatchOfSend this] |}
  = Some (tt,
          {| heap := h;
             trace := tr ++
               match o with
               | Fulfilled => []
               | Rejected e =>
                   [LogError (_logger this)
                             ("axios.post threw error " +:+ _urlStr this) e]
               end;
             pending := pending w |}).
Proof.
  unfold settle. simpl. rewrite list_lookup_middle by done.
  rewrite delete_middle, app_nil_r.
  destruct o; run_M; by rewrite ?app_nil_r.
Qed.

(** ** The constructor *)

(** Whatever the configuration says, the flag comes out [true]:
    [config.forceFlush || true]. *)
Lemma constructor_forceFlush (config : zipkinTypes.ExporterConfig) :
  _forceFlush (constructor config) = true.
Proof.
  unfold constructor. simpl.
  by destruct (zipkinTypes.forceFlush config) as [[]|].
Qed.

(** C10: a [url], [statusCodeTagName] or [statusDescriptionTagName] given
    as the empty string is replaced by its default (the default collector
    URL, the default tag keys), and the exporter built is the one built
    when the option is left out. *)
Theorem constructor_empty_string_is_absent
    (u sc sd : option string) (sn : string) (ff : option bool)
    (lg : option Logger) :
  let config (u sc sd : option string) :=
    {| zipkinTypes.url := u;
       zipkinTypes.serviceName := sn;
       zipkinTypes.statusCodeTagName := sc;
       zipkinTypes.statusDescriptionTagName := sd;
       zipkinTypes.forceFlush := ff;
       zipkinTypes.logger := lg |} in
  (_urlStr (constructor (config (Some "") sc sd)) = DEFAULT_URL
   ∧ constructor (config (Some "") sc sd) = constructor (config None sc sd))
  ∧ (_statusCodeTagName (constructor (config u (Some "") sd))
       = statusCodeTagName
     ∧ constructor (config u (Some "") sd) = constructor (config u None sd))
  ∧ (_statusDescriptionTagName (constructor (config u sc (Some "")))
       = statusDescriptionTagName
     ∧ constructor (config u sc (Some "")) = constructor (config u sc None)).
Proof. by repeat split. Qed.

(** ** The transformation *)

(** Of the exporter, [_toZipkinSpan] reads the service name and the two tag
    keys and nothing else: two exporters that agree on these three give the
    same wire span for the same span, whatever their URL, logger and flush
    flag, and build the same batch from the same spans. *)
Lemma _toZipkinSpan_reads_three_fields (this that : ZipkinExporter)
    (span : ReadableSpan) :
  _serviceName this = _serviceName that →
  _statusCodeTagName this = _statusCodeTagName that →
  _statusDescriptionTagName this = _statusDescriptionTagName that →
  _toZipkinSpan this span = _toZipkinSpan that span
  ∧ ∀ a a' cb cb' ss w w',
      spans_at (heap w) a = Some ss →
      spans_at (heap w') a' = Some ss →
      ∃ zs b b' w1 w1',
        export this a cb w = Some (tt, w1)
        ∧ export that a' cb' w' = Some (tt, w1')
        ∧ heap w1 !! b = Some (ObjBatch zs)
        ∧ heap w1' !! b' = Some (ObjBatch zs).
Proof.
  intros Hsn Hsc Hsd.
  assert (Heq : ∀ s, _toZipkinSpan this s = _toZipkinSpan that s).
  { intros s. unfold _toZipkinSpan. by rewrite Hsn, Hsc, Hsd. }
  split; [apply Heq|].
  intros a a' cb cb' ss w w' Hs Hs'. unfold export.
  destruct (_sendSpans_returns this a (Some cb) ss w Hs) as (w1 & Hr & Hh).
  destruct (_sendSpans_returns that a' (Some cb') ss w' Hs')
    as (w1' & Hr' & Hh').
  exists (map (_toZipkinSpan this) ss), (fresh (dom (heap w))),
    (fresh (dom (heap w'))), w1, w1'.
  split; [done|]. split; [done|].
  rewrite Hh, Hh', !lookup_insert_eq.
  split; [done|]. do 2 f_equal. apply map_ext. intros s. symmetry. apply Heq.
Qed.

(** ** [export] *)

(** C3: [export] of an empty array returns, with the callback invoked once
    with SUCCESS after a debug notice, no Transport submission made and no
    request left in flight. *)
Theorem export_empty_succeeds_without_transport this a cb w :
  spans_at (heap w) a = Some [] →
  ∃ w1,
    export this a cb w = Some (tt, w1)
    ∧ trace w1 = trace w ++
        [Call_sendSpans a (Some cb);
         LogDebug (_logger this) "Zipkin send with empty spans";
         Invoke cb SUCCESS]
    ∧ invocations cb (trace w1) = invocations cb (trace w) ++ [SUCCESS]
    ∧ posts (trace w1) = posts (trace w)
    ∧ pending w1 = pending w.
Proof.
  intros Hs. unfold export. rewrite _sendSpans_empty by done.
  eexists. split; [done|]. simpl. repeat split.
  - rewrite invocations_app. simpl. by rewrite decide_True.
  - rewrite posts_app. simpl. by rewrite app_nil_r.
Qed.

(** What [export] of a non-empty array has done once its request has
    settled: one submission, an error logged if the request was rejected,
    and nothing else; the callback is not among it. *)
Lemma export_nonempty_settled this a cb ss o w :
  spans_at (heap w) a = Some ss →
  ss ≠ [] →
  ∃ w1 w2,
    export this a cb w = Some (tt, w1)
    ∧ settle (length (pending w)) o w1 = Some (tt, w2)
    ∧ trace w2 = trace w ++
        [Call_sendSpans a (Some cb);
         AxiosPost (_urlStr this) (fresh (dom (heap w)))] ++
        match o with
        | Fulfilled => []
        | Rejected e =>
            [LogError (_logger this)
                      ("axios.post threw error " +:+ _urlStr this) e]
        end
    ∧ invocations cb (trace w2) = invocations cb (trace w)
    ∧ pending w2 = pending w.
Proof.
  intros Hs Hne. unfold export.
  rewrite (_sendSpans_nonempty _ _ _ ss) by done.
  do 2 eexists. split; [done|]. rewrite settle_last.
  split; [done|]. simpl. repeat split.
  - by rewrite <- (assoc_L (++)).
  - rewrite !invocations_app. destruct o; simpl; by rewrite ?app_nil_r.
Qed.

(** C6: [export] of a non-empty array makes one Transport submission, of a
    batch built in this call from this call's spans; the request settling
    adds none; and a second call submits a batch of its own, leaving the
    first as it was. *)
Theorem export_one_submission_per_call this a cb ss w :
  spans_at (heap w) a = Some ss →
  ss ≠ [] →
  ∃ b w1,
    export this a cb w = Some (tt, w1)
    ∧ heap w !! b = None
    ∧ heap w1 !! b = Some (ObjBatch (map (_toZipkinSpan this) ss))
    ∧ posts (trace w1) = posts (trace w) ++ [(_urlStr this, b)]
    ∧ (∀ o w2, settle (length (pending w)) o w1 = Some (tt, w2) →
               posts (trace w2) = posts (trace w1))
    ∧ (∀ that a' cb' ss',
         spans_at (heap w1) a' = Some ss' →
         ss' ≠ [] →
         ∃ b' w2,
           export that a' cb' w1 = Some (tt, w2)
           ∧ b' ≠ b
           ∧ heap w2 !! b = Some (ObjBatch (map (_toZipkinSpan this) ss))
           ∧ heap w2 !! b' = Some (ObjBatch (map (_toZipkinSpan that) ss'))
           ∧ posts (trace w2) =
               posts (trace w) ++ [(_urlStr this, b); (_urlStr that, b')]).
Proof.
  intros Hs Hne. unfold export.
  rewrite (_sendSpans_nonempty _ _ _ ss) by done.
  set (b := fresh (dom (heap w))).
  exists b. eexists. split; [done|]. simpl.
  split; [apply fresh_loc_free|].
  split; [apply lookup_insert_eq|].
  split; [rewrite posts_app; simpl; done|].
  split.
  - intros o w2. rewrite settle_last. intros [= <-]. simpl.
    rewrite (posts_app (_ ++ _)). destruct o; simpl; by rewrite app_nil_r.
  - intros that a' cb' ss' Hs' Hne'.
    rewrite (_sendSpans_nonempty _ _ _ ss') by done. simpl.
    set (h1 := <[b := ObjBatch (map (_toZipkinSpan this) ss)]> (heap w)).
    assert (Hb : h1 !! b = Some (ObjBatch (map (_toZipkinSpan this) ss)))
      by apply lookup_insert_eq.
    assert (Hne'' : fresh (dom h1) ≠ b).
    { intros Heq. pose proof (fresh_loc_free h1) as Hf.
      rewrite Heq, Hb in Hf. discriminate. }
    exists (fresh (dom h1)). eexists. split; [done|]. simpl.
    split; [done|].
    split; [by rewrite lookup_insert_ne|].
    split; [apply lookup_insert_eq|].
    rewrite !posts_app. simpl. by rewrite <- (assoc_L (++)).
Qed.

(** C7: the batch [export] builds from the spans s1 ... sn has n entries,
    the i-th being [toZipkinSpan] of si called with the exporter's service
    name and its two tag keys; when n is not zero, this batch is what the
    one Transport submission carries (when n is zero there is no
    submission). *)
Theorem export_batch_is_elementwise_transform this a cb ss w :
  spans_at (heap w) a = Some ss →
  ∃ b zs w1,
    export this a cb w = Some (tt, w1)
    ∧ heap w1 !! b = Some (ObjBatch zs)
    ∧ length zs = length ss
    ∧ (∀ i s, ss !! i = Some s →
              zs !! i = Some (toZipkinSpan s (_serviceName this)
                                           (_statusCodeTagName this)
                                           (_statusDescriptionTagName this)))
    ∧ posts (trace w1) =
        posts (trace w) ++
        match ss with
        | [] => []
        | _ :: _ => [(_urlStr this, b)]
        end.
Proof.
  intros Hs. exists (fresh (dom (heap w))), (map (_toZipkinSpan this) ss).
  unfold export. destruct ss as [|s ss].
  - rewrite _sendSpans_empty by done. eexists. split; [done|]. simpl.
    split; [apply lookup_insert_eq|]. split; [done|].
    split; [by intros i s'|]. by rewrite posts_app.
  - rewrite (_sendSpans_nonempty _ _ _ (s :: ss)) by done.
    eexists. split; [done|].
    split; [apply lookup_insert_eq|].
    split; [apply length_map|].
    split; [intros i s' Hi; by apply (lookup_map (_toZipkinSpan this))|].
    cbn [trace]. by rewrite posts_app.
Qed.

(** C9: [export] changes the heap by one new object, the batch: the
    caller's array and the spans it refers to are as they were, and so they
    stay, and so does the batch, through everything exporters do later in
    that world. *)
Theorem export_does_not_mutate this a cb ss w :
  spans_at (heap w) a = Some ss →
  ∃ b w1,
    export this a cb w = Some (tt, w1)
    ∧ heap w !! b = None
    ∧ heap w1 = <[b := ObjBatch (map (_toZipkinSpan this) ss)]> (heap w)
    ∧ preserved (heap w) (heap w1)
    ∧ spans_at (heap w1) a = Some ss
    ∧ (∀ ops w2,
         run ops w1 = Some (tt, w2) →
         preserved (heap w) (heap w2)
         ∧ spans_at (heap w2) a = Some ss
         ∧ heap w2 !! b = Some (ObjBatch (map (_toZipkinSpan this) ss))).
Proof.
  intros Hs. unfold export.
  destruct (_sendSpans_returns this a (Some cb) ss w Hs) as (w1 & Hr & Hh).
  pose proof (_sendSpans_preserved _ _ _ _ _ Hr) as Hp.
  exists (fresh (dom (heap w))), w1. split; [done|].
  split; [apply fresh_loc_free|]. split; [done|]. split; [done|].
  split; [by apply (spans_at_preserved (heap w) (heap w1))|].
  intros ops w2 Hrun. apply run_preserved in Hrun.
  assert (Hp2 : preserved (heap w) (heap w2))
    by (eapply preserved_trans; [exact Hp | exact Hrun]).
  split; [done|].
  split; [by apply (spans_at_preserved (heap w) (heap w2))|].
  apply Hrun. rewrite Hh. apply lookup_insert_eq.
Qed.

(** ** [shutdown] *)

(** With the flag set: one call of [_sendSpans] on a new, empty array. *)
Lemma shutdown_flush this w :
  _forceFlush this = true →
  shutdown this w =
    Some (tt,
          {| heap :=
               <[fresh (dom (<[fresh (dom (heap w)) := ObjSpans []]> (heap w)))
                   := ObjBatch []]>
                 (<[fresh (dom (heap w)) := ObjSpans []]> (heap w));
             trace := trace w ++
               [Call_sendSpans (fresh (dom (heap w))) None;
                LogDebug (_logger this) "Zipkin send with empty spans"];
             pending := pending w |}).
Proof.
  intros Hf. unfold shutdown. rewrite Hf. run_M.
  rewrite _sendSpans_empty; [by rewrite app_nil_r|].
  unfold spans_at. simpl. by rewrite lookup_insert_eq.
Qed.

Lemma shutdown_no_flush this w :
  _forceFlush this = false → shutdown this w = Some (tt, w).
Proof. intros Hf. unfold shutdown. by rewrite Hf. Qed.

(** [shutdown] by the flag the exporter holds: it returns; with the flag set
    it has made one call of [_sendSpans], on a new, empty array and without
    a callback, which submits nothing; with the flag not set it has done
    nothing at all.  No exporter the constructor builds has the flag not
    set ([constructor_forceFlush]). *)
Lemma shutdown_flushes_iff_forceFlush this w :
  ∃ w1,
    shutdown this w = Some (tt, w1)
    ∧ if _forceFlush this then
        ∃ a,
          heap w !! a = None
          ∧ spans_at (heap w1) a = Some []
          ∧ flushes (trace w1) = flushes (trace w) ++ [(a, None)]
          ∧ trace w1 = trace w ++
              [Call_sendSpans a None;
               LogDebug (_logger this) "Zipkin send with empty spans"]
          ∧ posts (trace w1) = posts (trace w)
          ∧ pending w1 = pending w
      else w1 = w.
Proof.
  destruct (_forceFlush this) eqn:Hf.
  - rewrite shutdown_flush by done. eexists. split; [done|].
    exists (fresh (dom (heap w))). simpl.
    split; [apply fresh_loc_free|].
    split.
    { apply (spans_at_preserved (<[fresh (dom (heap w)) := ObjSpans []]> (heap w)));
        [apply preserved_alloc|].
      unfold spans_at. by rewrite lookup_insert_eq. }
    split; [by rewrite flushes_app|].
    split; [done|].
    split; [rewrite posts_app; simpl; by rewrite app_nil_r|done].
  - rewrite shutdown_no_flush by done. by eexists.
Qed.

End Exporter.

(** * The exporter at work on the sample inputs *)

(** Empty strings for the URL and the two tag keys give the exporter that a
    configuration without them gives, and it posts to the default collector
    URL. *)
Example constructor_empty_url :
  _urlStr (constructor options_no_flush) = DEFAULT_URL
  ∧ constructor
      {| zipkinTypes.url := Some "";
         zipkinTypes.serviceName := "my-service";
         zipkinTypes.statusCodeTagName := Some "";
         zipkinTypes.statusDescriptionTagName := Some "";
         zipkinTypes.forceFlush := Some false;
         zipkinTypes.logger := Some (HostLogger 0) |}
    = constructor options_no_flush.
Proof. done. Qed.

(** C4, on the code: a configuration with [forceFlush: false] gives an
    exporter whose flush flag is [true], and whose [shutdown] flushes. *)
Theorem constructor_forceFlush_false_is_lost :
  zipkinTypes.forceFlush options_no_flush = Some false
  ∧ _forceFlush (constructor options_no_flush) = true
  ∧ ∃ a w1,
      shutdown (constructor options_no_flush) world0 = Some (tt, w1)
      ∧ flushes (trace w1) = [(a, None)].
Proof.
  split; [done|]. split; [apply constructor_forceFlush|].
  rewrite shutdown_flush by apply constructor_forceFlush.
  by do 2 eexists.
Qed.

(** C5, on the code: force-flush is disabled in the configuration
    ([forceFlush: false]), and [shutdown] of the exporter built from it still
    makes its export call: it enters [_sendSpans] once, on a new empty
    array, and logs the debug notice; the world is not as it was. *)
Theorem shutdown_flushes_though_forceFlush_false :
  zipkinTypes.forceFlush options_no_flush = Some false
  ∧ ∃ w1,
      shutdown (constructor options_no_flush) world0 = Some (tt, w1)
      ∧ trace w1 =
          [Call_sendSpans 6 None;
           LogDebug (HostLogger 0) "Zipkin send with empty spans"]
      ∧ flushes (trace w1) = [(6%positive, None)]
      ∧ spans_at (heap w1) 6 = Some []
      ∧ w1 ≠ world0.
Proof.
  split; [done|].
  rewrite shutdown_flush by apply constructor_forceFlush.
  eexists. split; [done|]. simpl.
  split; [vm_compute; reflexivity|].
  split; [vm_compute; reflexivity|].
  split; [vm_compute; reflexivity|].
  intros Heq. apply (f_equal trace) in Heq. discriminate.
Qed.

(** C1, on the code: [export] of the one-span array at location 4 makes its
    submission and returns without having invoked the callback, and the
    callback is still not invoked when the request has settled, whether it
    was fulfilled or rejected; nothing is left that could invoke it. *)
Theorem export_nonempty_never_invokes_callback (o : Outcome) :
  ∃ w1 w2,
    export exporter 4 7 world0 = Some (tt, w1)
    ∧ posts (trace w1) = [(_urlStr exporter, 6%positive)]
    ∧ invocations 7 (trace w1) = []
    ∧ settle 0 o w1 = Some (tt, w2)
    ∧ invocations 7 (trace w2) = []
    ∧ pending w2 = [].
Proof.
  destruct (@export_nonempty_settled spec_imports exporter 4 7 [span_doWork] o world0
              eq_refl ltac:(done)) as (w1 & w2 & He & Hs & _ & Hi & Hp).
  change (length (pending world0)) with 0 in Hs.
  exists w1, w2. rewrite Hs, Hi, Hp.
  vm_compute in He. injection He as <-. done.
Qed.

(** C2, on the code: when the request of that call is rejected with a
    network error, the error is logged once at error level, no second
    submission is made, and the callback is not invoked: no FAILURE reaches
    the caller. *)
Theorem export_rejected_is_logged_not_reported :
  ∃ w1 w2,
    export exporter 4 7 world0 = Some (tt, w1)
    ∧ settle 0 (Rejected "Network Error") w1 = Some (tt, w2)
    ∧ trace w2 =
        [Call_sendSpans 4 (Some 7);
         AxiosPost (_urlStr exporter) 6;
         LogError NoopLogger
           "axios.post threw error http://localhost:8888/http://host.docker.internal:9411/api/v2/spans"
           "Network Error"]
    ∧ invocations 7 (trace w2) = []
    ∧ pending w2 = [].
Proof.
  destruct (@export_nonempty_settled spec_imports exporter 4 7 [span_doWork]
              (Rejected "Network Error") world0 eq_refl ltac:(done))
    as (w1 & w2 & He & Hs & Ht & Hi & Hp).
  change (length (pending world0)) with 0 in Hs.
  exists w1, w2. split; [exact He|]. split; [exact Hs|].
  split; [exact Ht|]. split; [exact Hi | exact Hp].
Qed.

(** ** The theorems at the sample inputs *)

Lemma export_empty_succeeds_without_transport_witness :
  spans_at (heap world0) 5 = Some []
  ∧ ∃ w1,
      export exporter 5 7 world0 = Some (tt, w1)
      ∧ trace w1 = trace world0 ++
          [Call_sendSpans 5 (Some 7);
           LogDebug (_logger exporter) "Zipkin send with empty spans";
           Invoke 7 SUCCESS]
      ∧ invocations 7 (trace w1) = invocations 7 (trace world0) ++ [SUCCESS]
      ∧ posts (trace w1) = posts (trace world0)
      ∧ pending w1 = pending world0.
Proof.
  split; [reflexivity|].
  apply (export_empty_succeeds_without_transport exporter 5 7 world0).
  reflexivity.
Defined.

Lemma export_one_submission_per_call_witness :
  spans_at (heap world0) 3 = Some [span_main; span_doWork]
  ∧ ∃ b w1,
      export exporter 3 7 world0 = Some (tt, w1)
      ∧ heap world0 !! b = None
      ∧ heap w1 !! b =
          Some (ObjBatch [_toZipkinSpan exporter span_main;
                          _toZipkinSpan exporter span_doWork])
      ∧ posts (trace w1) = [(_urlStr exporter, b)].
Proof.
  split; [reflexivity|].
  destruct (@export_one_submission_per_call spec_imports exporter 3 7
              [span_main; span_doWork] world0 eq_refl ltac:(discriminate))
    as (b & w1 & He & Hb & Hz & Hp & _).
  exists b, w1. repeat split; assumption.
Defined.

Lemma export_batch_is_elementwise_transform_witness :
  spans_at (heap world0) 3 = Some [span_main; span_doWork]
  ∧ ∃ b zs w1,
      export exporter 3 7 world0 = Some (tt, w1)
      ∧ heap w1 !! b = Some (ObjBatch zs)
      ∧ length zs = 2
      ∧ zs !! 0 = Some (toZipkinSpan span_main "my-service"
                                     statusCodeTagName statusDescriptionTagName)
      ∧ zs !! 1 = Some (toZipkinSpan span_doWork "my-service"
                                     statusCodeTagName statusDescriptionTagName).
Proof.
  split; [reflexivity|].
  destruct (@export_batch_is_elementwise_transform spec_imports exporter 3 7
              [span_main; span_doWork] world0 eq_refl)
    as (b & zs & w1 & He & Hb & Hl & Hz & _).
  exists b, zs, w1. repeat split; try assumption.
  - apply (Hz 0 span_main). reflexivity.
  - apply (Hz 1 span_doWork). reflexivity.
Defined.

Lemma export_does_not_mutate_witness :
  spans_at (heap world0) 3 = Some [span_main; span_doWork]
  ∧ ∃ b w1,
      export exporter 3 7 world0 = Some (tt, w1)
      ∧ heap world0 !! b = None
      ∧ preserved (heap world0) (heap w1)
      ∧ spans_at (heap w1) 3 = Some [span_main; span_doWork].
Proof.
  split; [reflexivity|].
  destruct (@export_does_not_mutate spec_imports exporter 3 7 [span_main; span_doWork]
              world0 eq_refl) as (b & w1 & He & Hb & _ & Hp & Hs & _).
  exists b, w1. repeat split; assumption.
Defined.

(** * Sequences of calls *)

Section Sequences.

Context `{Imports}.

Implicit Types (this : ZipkinExporter) (w : World) (a b l : loc).
Implicit Types (ss : list ReadableSpan) (cb : Callback) (o : Outcome).
Implicit Types (ops : list Op) (config : zipkinTypes.ExporterConfig).

(** ** One step, by cases *)

(** A call of [_sendSpans] that returns has either found an empty array,
    logged and called back, or found spans and submitted their batch. *)
Lemma _sendSpans_cases this a done w w' :
  _sendSpans this a done w = Some (tt, w') →
  (spans_at (heap w) a = Some []
   ∧ heap w' = <[fresh (dom (heap w)) := ObjBatch []]> (heap w)
   ∧ trace w' = trace w ++
       [Call_sendSpans a done;
        LogDebug (_logger this) "Zipkin send with empty spans"] ++
       match done with
       | Some cb => [Invoke cb SUCCESS]
       | None => []
       end
   ∧ pending w' = pending w)
  ∨ (∃ ss,
       ss ≠ []
       ∧ spans_at (heap w) a = Some ss
       ∧ heap w' = <[fresh (dom (heap w)) :=
                       ObjBatch (map (_toZipkinSpan this) ss)]> (heap w)
       ∧ trace w' = trace w ++
           [Call_sendSpans a done;
            AxiosPost (_urlStr this) (fresh (dom (heap w)))]
       ∧ pending w' = pending w ++ [CatchOfSend this]).
Proof.
  intros Hr. destruct (_sendSpans_inv _ _ _ _ _ Hr) as [[|s ss] Hs].
  - left. rewrite _sendSpans_empty in Hr by done.
    injection Hr as <-. done.
  - right. exists (s :: ss).
    rewrite (_sendSpans_nonempty _ _ _ (s :: ss)) in Hr by done.
    injection Hr as <-. done.
Qed.

Lemma shutdown_cases this w w' :
  shutdown this w = Some (tt, w') →
  (_forceFlush this = false ∧ w' = w)
  ∨ (_forceFlush this = true
     ∧ preserved (heap w) (heap w')
     ∧ trace w' = trace w ++
         [Call_sendSpans (fresh (dom (heap w))) None;
          LogDebug (_logger this) "Zipkin send with empty spans"]
     ∧ pending w' = pending w).
Proof.
  intros Hr. destruct (_forceFlush this) eqn:Hf.
  - right. split; [done|]. split; [by eapply shutdown_preserved|].
    rewrite shutdown_flush in Hr by done. injection Hr as <-. done.
  - left. rewrite shutdown_no_flush in Hr by done. injection Hr as <-. done.
Qed.

Lemma settle_cases i o w w' :
  settle i o w = Some (tt, w') →
  ∃ this,
    pending w !! i = Some (CatchOfSend this)
    ∧ heap w' = heap w
    ∧ pending w' = delete i (pending w)
    ∧ trace w' = trace w ++
        match o with
        | Fulfilled => []
        | Rejected e =>
            [LogError (_logger this)
                      ("axios.post threw error " +:+ _urlStr this) e]
        end.
Proof.
  unfold settle. destruct (pending w !! i) as [[this]|]; [|discriminate].
  intros Hr. exists this. split; [done|].
  destruct o; run_M; injection Hr as <-; simpl; by rewrite ?app_nil_r.
Qed.

(** A run, step by step. *)
Lemma run_cons op ops w w' :
  run (op :: ops) w = Some (tt, w') →
  ∃ w1, step op w = Some (tt, w1) ∧ run ops w1 = Some (tt, w').
Proof.
  simpl. run_M. destruct (step op w) as [[[] w1]|]; [|discriminate]. eauto.
Qed.

Lemma run_nil w w' : run [] w = Some (tt, w') → w' = w.
Proof. simpl. run_M. by intros [= <-]. Qed.

(** Splits a step that returns into the five ways it can have gone. *)
Ltac step_cases Hs :=
  match type of Hs with
  | step ?op _ = _ =>
      destruct op as [this a cb | this | i o]; simpl in Hs;
      [ apply _sendSpans_cases in Hs
          as [(Hs0 & Hh & Ht & Hp) | (ss & Hne & Hs0 & Hh & Ht & Hp)]
      | apply shutdown_cases in Hs as [[Hf ->] | (Hf & Hh & Ht & Hp)]
      | apply settle_cases in Hs as (this & Hl & Hh & Hp & Ht) ]
  end.

(** ** What the callback is told *)

Lemma step_invocations op w w' cb' :
  step op w = Some (tt, w') →
  ∃ k, invocations cb' (trace w')
       = invocations cb' (trace w) ++ replicate k SUCCESS.
Proof.
  intros Hs. step_cases Hs; try rewrite Ht; rewrite ?invocations_app.
  - simpl. destruct (decide (cb = cb')); [by exists 1 | by exists 0].
  - by exists 0.
  - exists 0. by rewrite app_nil_r.
  - by exists 0.
  - exists 0. by destruct o.
Qed.

(** Whatever exporters are asked to do and however their requests end, a
    callback is only ever told SUCCESS: no step invokes one with FAILURE. *)
Theorem run_never_reports_failure ops w w' cb :
  run ops w = Some (tt, w') →
  ∃ k, invocations cb (trace w')
       = invocations cb (trace w) ++ replicate k SUCCESS.
Proof.
  revert w. induction ops as [|op ops IH]; intros w Hr.
  - apply run_nil in Hr as ->. exists 0. by rewrite app_nil_r.
  - apply run_cons in Hr as (w1 & Hs & Hr).
    destruct (step_invocations _ _ _ cb Hs) as [k1 Hk1].
    destruct (IH _ Hr) as [k2 Hk2].
    exists (k1 + k2). by rewrite Hk2, Hk1, replicate_add, (assoc_L (++)).
Qed.

(** A callback is invoked once, with SUCCESS, for each export of an empty
    array it is given to, and for nothing else: not for an export of spans,
    not when a request settles, not by [shutdown]. *)
Theorem run_invokes_for_empty_exports_only ops w w' cb :
  run ops w = Some (tt, w') →
  invocations cb (trace w')
  = invocations cb (trace w)
    ++ replicate (empty_exports (heap w') cb ops) SUCCESS.
Proof.
  revert w. induction ops as [|op ops IH]; intros w Hr.
  - apply run_nil in Hr as ->. simpl. by rewrite app_nil_r.
  - apply run_cons in Hr as (w1 & Hs & Hr).
    rewrite (IH _ Hr). pose proof (run_preserved _ _ _ Hr) as Hp1.
    pose proof (step_preserved _ _ _ Hs) as Hp0.
    destruct op as [this a cb0 | this | i o]; simpl in Hs |- *.
    + apply _sendSpans_cases in Hs
        as [(Hs0 & _ & Ht & _) | (ss & Hne & Hs0 & _ & Ht & _)].
      * rewrite (spans_at_preserved (heap w) (heap w') a [])
          by (done || by eapply preserved_trans).
        rewrite Ht, invocations_app. simpl.
        destruct (decide (cb0 = cb)); simpl; by rewrite <- ?(assoc_L (++)).
      * rewrite (spans_at_preserved (heap w) (heap w') a ss)
          by (done || by eapply preserved_trans).
        rewrite Ht, invocations_app. simpl. rewrite app_nil_r.
        destruct ss; [done|]. by destruct (decide (cb0 = cb)).
    + apply shutdown_cases in Hs as [[_ ->] | (_ & _ & Ht & _)]; [done|].
      rewrite Ht, invocations_app. simpl. by rewrite app_nil_r.
    + apply settle_cases in Hs as (this & _ & _ & _ & Ht).
      rewrite Ht, invocations_app. destruct o; simpl; by rewrite app_nil_r.
Qed.

(** ** What is logged as an error *)

Lemma step_errors op w w' :
  step op w = Some (tt, w') →
  length (errors (trace w')) = length (errors (trace w)) + rejections [op].
Proof.
  intros Hs. step_cases Hs; try rewrite Ht;
    rewrite ?errors_app, ?length_app; simpl; try lia.
  destruct o; simpl; lia.
Qed.

(** The errors logged are the rejected requests: a run logs one error for
    each request that ends rejected, and none for anything else. *)
Theorem run_logs_one_error_per_rejection ops w w' :
  run ops w = Some (tt, w') →
  length (errors (trace w')) = length (errors (trace w)) + rejections ops.
Proof.
  revert w. induction ops as [|op ops IH]; intros w Hr.
  - apply run_nil in Hr as ->. simpl. lia.
  - apply run_cons in Hr as (w1 & Hs & Hr).
    rewrite (IH _ Hr), (step_errors _ _ _ Hs).
    destruct op as [| |? []]; simpl; lia.
Qed.

(** ** Submissions and the requests in flight *)

Lemma step_in_flight op w w' :
  step op w = Some (tt, w') →
  length (posts (trace w')) + length (pending w)
  = length (posts (trace w)) + length (pending w') + settles [op].
Proof.
  intros Hs. step_cases Hs; try rewrite Ht; try rewrite Hp;
    rewrite ?posts_app, ?length_app; simpl; try lia.
  rewrite length_delete by eauto.
  apply lookup_lt_Some in Hl. destruct o; simpl; lia.
Qed.

(** Each submission leaves one request in flight until it settles: over a
    run, the submissions made are the requests settled and the growth of
    the requests in flight. *)
Theorem run_in_flight_accounting ops w w' :
  run ops w = Some (tt, w') →
  length (posts (trace w')) + length (pending w)
  = length (posts (trace w)) + length (pending w') + settles ops.
Proof.
  revert w. induction ops as [|op ops IH]; intros w Hr.
  - apply run_nil in Hr as ->. simpl. lia.
  - apply run_cons in Hr as (w1 & Hs & Hr).
    pose proof (IH _ Hr) as IH'. pose proof (step_in_flight _ _ _ Hs) as Hs'.
    destruct op; simpl in *; lia.
Qed.

(** ** What is submitted *)

Lemma batches_nonempty_kept w w' :
  preserved (heap w) (heap w') →
  posts (trace w') = posts (trace w) →
  batches_nonempty w → batches_nonempty w'.
Proof.
  intros Hp Ht Hw u b Hin. rewrite Ht in Hin.
  destruct (Hw u b Hin) as (zs & Hb & Hne). exists zs. split; [by apply Hp|done].
Qed.

Lemma step_batches_nonempty op w w' :
  step op w = Some (tt, w') → batches_nonempty w → batches_nonempty w'.
Proof.
  intros Hs Hw. step_cases Hs.
  - apply (batches_nonempty_kept w); [|rewrite Ht, posts_app|done].
    + rewrite Hh. apply preserved_alloc.
    + simpl. by rewrite app_nil_r.
  - intros u b. rewrite Ht, posts_app, elem_of_app. simpl.
    rewrite list_elem_of_singleton. intros [Hin | [= -> ->]].
    + destruct (Hw u b Hin) as (zs & Hb & Hz). exists zs.
      split; [|done]. rewrite Hh. by apply preserved_alloc.
    + exists (map (_toZipkinSpan this) ss). rewrite Hh, lookup_insert_eq.
      split; [done|]. by destruct ss.
  - done.
  - apply (batches_nonempty_kept w); [done| |done].
    rewrite Ht, posts_app. simpl. by rewrite app_nil_r.
  - apply (batches_nonempty_kept w); [rewrite Hh; apply preserved_refl| |done].
    rewrite Ht, posts_app. destruct o; simpl; by rewrite app_nil_r.
Qed.

(** No empty batch ever reaches the Transport: if every submission so far
    carries a batch with a span in it, so does every submission after any
    run, and that batch is still in the heap as it was submitted. *)
Theorem run_never_submits_empty_batch ops w w' :
  run ops w = Some (tt, w') → batches_nonempty w → batches_nonempty w'.
Proof.
  revert w. induction ops as [|op ops IH]; intros w Hr Hw.
  - by apply run_nil in Hr as ->.
  - apply run_cons in Hr as (w1 & Hs & Hr).
    eapply IH; [done|]. by eapply step_batches_nonempty.
Qed.

(** ** What an error message says *)

Lemma step_trace_grows op w w' :
  step op w = Some (tt, w') → ∃ evs, trace w' = trace w ++ evs.
Proof. intros Hs. step_cases Hs; try rewrite Ht; eauto. by exists []; rewrite app_nil_r. Qed.

Lemma run_trace_grows ops w w' :
  run ops w = Some (tt, w') → ∃ evs, trace w' = trace w ++ evs.
Proof.
  revert w. induction ops as [|op ops IH]; intros w Hr.
  - apply run_nil in Hr as ->. exists []. by rewrite app_nil_r.
  - apply run_cons in Hr as (w1 & Hs & Hr).
    destruct (step_trace_grows _ _ _ Hs) as [evs1 H1].
    destruct (IH _ Hr) as [evs2 H2]. exists (evs1 ++ evs2).
    by rewrite H2, H1, (assoc_L (++)).
Qed.

Lemma posted_url_grows (tr evs : list Event) (u : string) :
  u ∈ (posts tr).*1 → u ∈ (posts (tr ++ evs)).*1.
Proof. rewrite posts_app, fmap_app, elem_of_app. by left. Qed.

Lemma step_in_flight_posted op w w' :
  step op w = Some (tt, w') →
  in_flight_posted w →
  in_flight_posted w'
  ∧ ∀ lg m e,
      (lg, m, e) ∈ errors (trace w') →
      (lg, m, e) ∈ errors (trace w)
      ∨ ∃ u, m = "axios.post threw error " +:+ u ∧ u ∈ (posts (trace w')).*1.
Proof.
  intros Hs Hw. step_cases Hs.
  - split.
    + intros that. rewrite Hp, Ht. intros Hin. by apply posted_url_grows, Hw.
    + intros lg m e. rewrite Ht, errors_app. simpl.
      rewrite app_nil_r. by left.
  - split.
    + intros that. rewrite Hp, Ht, elem_of_app, list_elem_of_singleton.
      intros [Hin | [= ->]]; [by apply posted_url_grows, Hw|].
      rewrite posts_app, fmap_app, elem_of_app. right. simpl.
      by apply list_elem_of_singleton.
    + intros lg m e. rewrite Ht, errors_app. simpl.
      rewrite app_nil_r. by left.
  - split; [done|]. intros lg m e. by left.
  - split.
    + intros that. rewrite Hp, Ht. intros Hin. by apply posted_url_grows, Hw.
    + intros lg m e. rewrite Ht, errors_app. simpl.
      rewrite app_nil_r. by left.
  - assert (Hu : _urlStr this ∈ (posts (trace w)).*1)
      by (by apply Hw; eapply list_elem_of_lookup_2).
    split.
    + intros that. rewrite Hp, Ht. intros Hin%list_elem_of_delete_inv.
      by apply posted_url_grows, Hw.
    + intros lg m e. rewrite Ht, errors_app.
      destruct o as [|e']; simpl.
      * rewrite app_nil_r. by left.
      * rewrite elem_of_app, list_elem_of_singleton.
        intros [Hin | [= -> -> ->]]; [by left|]. right.
        exists (_urlStr this). split; [done|]. by apply posted_url_grows.
Qed.

(** An error message names a URL a submission went to: when every handler
    in flight waits for a submission of the trace, every error a run adds to
    the log reads "axios.post threw error " followed by the URL of one of
    the submissions made. *)
Theorem run_errors_name_a_submission ops w w' :
  run ops w = Some (tt, w') →
  in_flight_posted w →
  in_flight_posted w'
  ∧ ∀ lg m e,
      (lg, m, e) ∈ errors (trace w') →
      (lg, m, e) ∈ errors (trace w)
      ∨ ∃ u, m = "axios.post threw error " +:+ u ∧ u ∈ (posts (trace w')).*1.
Proof.
  revert w. induction ops as [|op ops IH]; intros w Hr Hw.
  - apply run_nil in Hr as ->. split; [done|]. intros lg m e. by left.
  - apply run_cons in Hr as (w1 & Hs & Hr).
    destruct (step_in_flight_posted _ _ _ Hs Hw) as [Hw1 He1].
    destruct (IH _ Hr Hw1) as [Hw' He']. split; [done|].
    intros lg m e Hin. destruct (He' lg m e Hin) as [Hin1 | Hnew]; [|by right].
    destruct (He1 lg m e Hin1) as [Hin0 | (u & -> & Hu)]; [by left|].
    right. exists u. split; [done|].
    destruct (run_trace_grows _ _ _ Hr) as [evs ->].
    by apply posted_url_grows.
Qed.

(** ** No closed state *)

(** An exporter is never closed: after any run of exports, shutdowns and
    settled requests, an array of spans that was there at the start is
    exported as at the start, in one submission of its batch. *)
Theorem export_after_any_run ops this a cb ss w w' :
  run ops w = Some (tt, w') →
  spans_at (heap w) a = Some ss →
  ss ≠ [] →
  ∃ b w2,
    export this a cb w' = Some (tt, w2)
    ∧ heap w' !! b = None
    ∧ heap w2 !! b = Some (ObjBatch (map (_toZipkinSpan this) ss))
    ∧ posts (trace w2) = posts (trace w') ++ [(_urlStr this, b)].
Proof.
  intros Hr Hs Hne. apply run_preserved in Hr.
  assert (Hs' : spans_at (heap w') a = Some ss)
    by by apply (spans_at_preserved (heap w) (heap w')).
  unfold export. rewrite (_sendSpans_nonempty _ _ _ ss) by done.
  exists (fresh (dom (heap w'))). eexists. split; [done|]. simpl.
  split; [apply fresh_loc_free|]. split; [apply lookup_insert_eq|].
  by rewrite posts_app.
Qed.

(** [shutdown] can be called again and again, and flushes each time: n calls
    on an exporter with the flag set enter [_sendSpans] n times, submit
    nothing, invoke no callback and leave every object and every request in
    flight as it was. *)
Theorem shutdown_repeated this n w :
  ∃ w1,
    run (replicate n (OpShutdown this)) w = Some (tt, w1)
    ∧ length (flushes (trace w1))
      = length (flushes (trace w)) + (if _forceFlush this then n else 0)
    ∧ posts (trace w1) = posts (trace w)
    ∧ (∀ cb, invocations cb (trace w1) = invocations cb (trace w))
    ∧ pending w1 = pending w
    ∧ preserved (heap w) (heap w1).
Proof.
  revert w. induction n as [|n IH]; intros w.
  - exists w. simpl. split; [done|]. split; [by destruct (_forceFlush this)|].
    repeat split; try done. apply preserved_refl.
  - simpl. run_M. destruct (_forceFlush this) eqn:Hf.
    + rewrite shutdown_flush by done.
      match goal with |- context [run _ ?w0] =>
        destruct (IH w0) as (w1 & Hr & Hfl & Hpo & Hin & Hpe & Hh)
      end.
      exists w1. rewrite Hr. split; [done|]. simpl in *.
      rewrite flushes_app, length_app in Hfl. rewrite posts_app in Hpo.
      simpl in *. rewrite app_nil_r in Hpo.
      split; [lia|]. split; [done|].
      split; [intros cb; rewrite Hin, invocations_app; simpl;
              by rewrite app_nil_r|].
      split; [done|].
      eapply preserved_trans; [|exact Hh].
      eapply preserved_trans; apply preserved_alloc.
    + rewrite shutdown_no_flush by done.
      destruct (IH w) as (w1 & Hr & Hfl & Hpo & Hin & Hpe & Hh).
      exists w1. rewrite Hr. repeat split; try done; lia.
Qed.

(** ** The configuration at work *)

(** Whatever the configuration, [shutdown] of the exporter built from it
    flushes: it enters [_sendSpans] on a new empty array and logs the debug
    notice to the configured logger, or to the no-op logger when there is
    none. *)
Theorem shutdown_of_constructed_flushes config w :
  ∃ a w1,
    shutdown (constructor config) w = Some (tt, w1)
    ∧ heap w !! a = None
    ∧ trace w1 = trace w ++
        [Call_sendSpans a None;
         LogDebug (match zipkinTypes.logger config with
                   | Some lg => lg
                   | None => NoopLogger
                   end) "Zipkin send with empty spans"]
    ∧ pending w1 = pending w.
Proof.
  rewrite shutdown_flush by apply constructor_forceFlush.
  exists (fresh (dom (heap w))). eexists. split; [done|].
  split; [apply fresh_loc_free|]. done.
Qed.

(** The exporter built from a configuration submits to the configured URL,
    or to the default one when the URL is absent or empty, a batch whose
    spans are transformed with the configured service name, taken as it is
    (an empty one too), and with the configured tag keys or their
    defaults. *)
Theorem export_uses_the_configuration config a cb ss w :
  spans_at (heap w) a = Some ss →
  ss ≠ [] →
  ∃ b w1,
    export (constructor config) a cb w = Some (tt, w1)
    ∧ heap w1 !! b =
        Some (ObjBatch
                (map (λ s, toZipkinSpan s (zipkinTypes.serviceName config)
                             (or_string (zipkinTypes.statusCodeTagName config)
                                        statusCodeTagName)
                             (or_string
                                (zipkinTypes.statusDescriptionTagName config)
                                statusDescriptionTagName)) ss))
    ∧ (∀ u, zipkinTypes.url config = Some u → u ≠ "" →
            posts (trace w1) = posts (trace w) ++ [(u, b)])
    ∧ (zipkinTypes.url config = None ∨ zipkinTypes.url config = Some "" →
       posts (trace w1) = posts (trace w) ++ [(DEFAULT_URL, b)]).
Proof.
  intros Hs Hne. unfold export.
  rewrite (_sendSpans_nonempty _ _ _ ss) by done.
  exists (fresh (dom (heap w))). eexists. split; [done|]. simpl.
  split; [apply lookup_insert_eq|]. rewrite posts_app. simpl.
  split.
  - intros u -> Hu. simpl. by rewrite decide_False.
  - intros [-> | ->]; done.
Qed.

(** The URL an exporter submits to is never the empty string, whatever the
    configuration and the default tag keys; and each of its two tag keys is
    not empty when the default for that key is not empty. *)
Theorem constructor_strings_nonempty config :
  _urlStr (constructor config) ≠ ""
  ∧ (statusCodeTagName ≠ "" → _statusCodeTagName (constructor config) ≠ "")
  ∧ (statusDescriptionTagName ≠ "" →
     _statusDescriptionTagName (constructor config) ≠ "").
Proof.
  unfold constructor, or_string. simpl. repeat split.
  - destruct (zipkinTypes.url config) as [u|]; [|done]. by case_decide.
  - intros Hsc.
    destruct (zipkinTypes.statusCodeTagName config) as [u|]; [|done].
    by case_decide.
  - intros Hsd.
    destruct (zipkinTypes.statusDescriptionTagName config) as [u|]; [|done].
    by case_decide.
Qed.

End Sequences.

(** ** The theorems on sequences at the sample day *)

Lemma run_never_reports_failure_witness :
  run day world0 = Some (tt, day_end)
  ∧ ∃ k, invocations 7 (trace day_end)
         = invocations 7 (trace world0) ++ replicate k SUCCESS.
Proof.
  split; [vm_compute; reflexivity|].
  apply (run_never_reports_failure day world0 day_end 7).
  vm_compute. reflexivity.
Defined.

Lemma run_logs_one_error_per_rejection_witness :
  run day world0 = Some (tt, day_end)
  ∧ length (errors (trace day_end))
    = length (errors (trace world0)) + rejections day.
Proof.
  split; [vm_compute; reflexivity|].
  apply (run_logs_one_error_per_rejection day world0 day_end).
  vm_compute. reflexivity.
Defined.

Lemma run_in_flight_accounting_witness :
  run day world0 = Some (tt, day_end)
  ∧ length (posts (trace day_end)) + length (pending world0)
    = length (posts (trace world0)) + length (pending day_end) + settles day.
Proof.
  split; [vm_compute; reflexivity|].
  apply (run_in_flight_accounting day world0 day_end).
  vm_compute. reflexivity.
Defined.

Lemma run_never_submits_empty_batch_witness :
  run day world0 = Some (tt, day_end)
  ∧ batches_nonempty world0
  ∧ batches_nonempty day_end.
Proof.
  assert (H0 : batches_nonempty world0).
  { intros u b Hin. simpl in Hin. by apply elem_of_nil in Hin. }
  split; [vm_compute; reflexivity|]. split; [exact H0|].
  apply (run_never_submits_empty_batch day world0 day_end);
    [vm_compute; reflexivity | exact H0].
Defined.

Lemma run_errors_name_a_submission_witness :
  run day world0 = Some (tt, day_end)
  ∧ in_flight_posted world0
  ∧ ∀ lg m e,
      (lg, m, e) ∈ errors (trace day_end) →
      (lg, m, e) ∈ errors (trace world0)
      ∨ ∃ u, m = "axios.post threw error " +:+ u
             ∧ u ∈ (posts (trace day_end)).*1.
Proof.
  assert (H0 : in_flight_posted world0).
  { intros this Hin. simpl in Hin. by apply elem_of_nil in Hin. }
  split; [vm_compute; reflexivity|]. split; [exact H0|].
  apply (run_errors_name_a_submission day world0 day_end);
    [vm_compute; reflexivity | exact H0].
Defined.

Lemma export_after_any_run_witness :
  run day world0 = Some (tt, day_end)
  ∧ spans_at (heap world0) 3 = Some [span_main; span_doWork]
  ∧ ∃ b w2,
      export exporter 3 7 day_end = Some (tt, w2)
      ∧ heap day_end !! b = None
      ∧ heap w2 !! b =
          Some (ObjBatch (map (_toZipkinSpan exporter)
                              [span_main; span_doWork]))
      ∧ posts (trace w2) = posts (trace day_end) ++ [(_urlStr exporter, b)].
Proof.
  split; [vm_compute; reflexivity|]. split; [reflexivity|].
  apply (@export_after_any_run spec_imports day exporter 3 7
           [span_main; span_doWork] world0 day_end);
    [vm_compute; reflexivity | reflexivity | discriminate].
Defined.

Lemma export_uses_the_configuration_witness :
  spans_at (heap world0) 4 = Some [span_doWork]
  ∧ ∃ b w1,
      export (constructor options_no_flush) 4 8 world0 = Some (tt, w1)
      ∧ heap w1 !! b =
          Some (ObjBatch
                  [toZipkinSpan span_doWork "my-service"
                                statusCodeTagName statusDescriptionTagName])
      ∧ posts (trace w1) = [(DEFAULT_URL, b)].
Proof.
  split; [reflexivity|].
  destruct (@export_uses_the_configuration spec_imports options_no_flush 4 8
              [span_doWork] world0 eq_refl ltac:(discriminate))
    as (b & w1 & He & Hb & _ & Hp).
  exists b, w1. split; [exact He|]. split; [exact Hb|].
  apply Hp. left. reflexivity.
Defined.

Lemma constructor_strings_nonempty_witness :
  _urlStr (constructor options) ≠ ""
  ∧ _statusCodeTagName (constructor options) ≠ ""
  ∧ _statusDescriptionTagName (constructor options) ≠ "".
Proof.
  destruct (constructor_strings_nonempty options) as (Hu & Hsc & Hsd).
  split; [exact Hu|]. split; [apply Hsc | apply Hsd]; discriminate.
Defined.

Lemma run_invokes_for_empty_exports_only_witness :
  run day world0 = Some (tt, day_end)
  ∧ empty_exports (heap day_end) 7 day = 1
  ∧ invocations 7 (trace day_end)
    = invocations 7 (trace world0)
      ++ replicate (empty_exports (heap day_end) 7 day) SUCCESS.
Proof.
  split; [vm_compute; reflexivity|]. split; [vm_compute; reflexivity|].
  apply (run_invokes_for_empty_exports_only day world0 day_end 7).
  vm_compute. reflexivity.
Defined.
